(** * TodoList.tsx: the todo list view

    A shallow embedding of [src/client/components/TodoList.tsx].

    The component is a function of its hook results: a [useState] cell
    ([activeTab]), one tRPC query ([api.todo.getAll.useQuery]) and two tRPC
    mutations ([api.todoStatus.update], [api.todo.delete]).  The embedding
    keeps that shape:

    - the values are the JavaScript values.  TypeScript's unions of string
      literals (['all' | 'pending' | 'completed']) are erased when the
      program runs and the [as] cast of [handleTabChange] checks nothing,
      so tabs and statuses are strings here and the union types are
      predicates ([TabValue], [TodoStatus]);
    - the JSX tree is a record per element, with the attributes the
      component sets;
    - the event handlers are functions from the component state to the new
      state and what they ask for: a status update or a delete, which is
      sent as it is, or the list query, which goes through the query hook;
    - the query hook keeps one fetch at most in flight for each input and
      decides which of the list queries asked for leave as requests
      ([Hook], [hook_step]);
    - the remote service is not modelled: its answers arrive as events. *)

From Stdlib Require Import ZArith DecimalString DecimalZ DecimalPos.
From Stdlib Require QArith_base.
From stdpp Require Import base option list strings gmap.

Local Open Scope Z_scope.

(** ** Data *)

(** A todo, as [api.todo.getAll] returns it.  [id] is a JavaScript number
    that holds an integer key. *)
Record Todo : Type := mkTodo {
  id : Z;
  body : string;
  status : string;
}.

(** ['completed' | 'pending'] *)
Definition TodoStatus (s : string) : Prop := s = "pending" ∨ s = "completed".

(** ['all' | 'pending' | 'completed'] *)
Definition TabValue (v : string) : Prop :=
  v = "all" ∨ v = "pending" ∨ v = "completed".

(** What the component asks of the remote service. *)
Inductive Request : Type :=
  | todo_getAll (statuses : list string)
  | todoStatus_update (todoId : Z) (status : string)
  | todo_delete (id : Z).

(** [String(n)] for an integer [n] that a JavaScript number holds exactly
    (up to 2^53 in size): its decimal digits, with a minus sign when
    negative.  Ids are the integer keys of the service and lie in that
    range; above it [String] rounds the digits, and from 1e21 it uses the
    exponent notation, neither of which this definition follows. *)
Definition js_String (n : Z) : string := NilZero.string_of_int (Z.to_int n).

(** ** Component state

    [activeTab] is the [useState] cell.  [queryCache] is what the query
    hook holds: the last successful answer for each query input it has
    seen ([undefined] for the others). *)
Record State : Type := mkState {
  activeTab : string;
  queryCache : gmap (list string) (list Todo);
}.

(** [useState<'all' | 'pending' | 'completed'>('all')], nothing fetched. *)
Definition initial : State :=
  {| activeTab := "all"; queryCache := ∅ |}.

Definition setActiveTab (value : string) (st : State) : State :=
  {| activeTab := value; queryCache := queryCache st |}.

(** [handleTabChange]: the cast is the identity on the value. *)
Definition handleTabChange (value : string) (st : State) : State :=
  setActiveTab value st.

(** The input of [api.todo.getAll.useQuery]:
    [activeTab === 'all' ? ['completed', 'pending'] : [activeTab]]. *)
Definition statuses (activeTab : string) : list string :=
  if String.eqb activeTab "all" then ["completed"; "pending"] else [activeTab].

(** [data] of the query, for the current input. *)
Definition data (st : State) : option (list Todo) :=
  queryCache st !! statuses (activeTab st).

(** [const { data: todos = [] }]: the default applies when [data] is
    [undefined]. *)
Definition todos (st : State) : list Todo := default [] (data st).

(** [refetchTodos()]: the code asks the query hook for the list query
    again, with the input of the current render.  Whether a request
    leaves is the hook's decision ([hook_fetch] with [cancelRefetch]). *)
Definition refetchTodos (st : State) : list Request :=
  [todo_getAll (statuses (activeTab st))].

(** [onSuccess] of [api.todoStatus.update.useMutation]. *)
Definition updateTodoStatus_onSuccess (st : State) : list Request :=
  refetchTodos st.

(** [onSuccess] of [api.todo.delete.useMutation]. *)
Definition deleteTodo_onSuccess (st : State) : list Request :=
  refetchTodos st.

(** The status [handleCheckboxChange] asks for:
    [status === 'completed' ? 'pending' : 'completed']. *)
Definition next_status (status : string) : string :=
  if String.eqb status "completed" then "pending" else "completed".

(** [handleCheckboxChange]: calls [updateTodoStatus] with the other
    status. *)
Definition handleCheckboxChange (todoId : Z) (status : string) : list Request :=
  [todoStatus_update todoId (next_status status)].

(** [handleDelete]: calls [deleteTodo]. *)
Definition handleDelete (todoId : Z) : list Request :=
  [todo_delete todoId].

(** ** The rendered tree

    One record per JSX element, with the attributes the component gives it.
    An event handler attribute holds the call its arrow function makes. *)

Inductive Handler : Type :=
  | call_handleCheckboxChange (todoId : Z) (status : string)
  | call_handleDelete (todoId : Z).

Inductive Icon : Type :=
  | XMarkIcon (className : string)
  | CheckIcon (className : string).

Record TabsTrigger : Type := mkTrigger {
  trigger_className : string;
  trigger_value : string;
  trigger_children : string;
}.

(** [Tabs.Root]; its [onValueChange] is [handleTabChange]. *)
Record TabsRoot : Type := mkTabs {
  tabs_className : string;
  tabs_value : string;
  tabs_list : list TabsTrigger;
}.

Record CheckboxRoot : Type := mkCheckbox {
  checkbox_id : string;
  checkbox_className : string;
  checked : bool;
  onCheckedChange : Handler;
  checkbox_indicator : Icon;
}.

Record Label : Type := mkLabel {
  label_className : string;
  htmlFor : string;
  label_children : string;
}.

Record Button : Type := mkButton {
  button_className : string;
  onClick : Handler;
  aria_label : string;
  button_children : Icon;
}.

Record Li : Type := mkLi {
  key : Z;
  li_className : string;
  li_checkbox : CheckboxRoot;
  li_label : Label;
  li_button : Button;
}.

Record Rendered : Type := mkRendered {
  tabs : TabsRoot;
  ul_className : string;
  ul : list Li;
}.

(** The class of a [Tabs.Trigger] whose value is [value]. *)
Definition trigger_class (activeTab value : string) : string :=
  "mr-2 rounded-full border-2 px-4 py-2 focus:outline-none data-[state=active]:border-b-2 data-[state=active]:border-gray-700 data-[state=active]:font-medium "
  +:+ (if String.eqb activeTab value
       then "border-gray-700 bg-gray-700 font-medium text-white"
       else "border-gray-200 text-gray-500 hover:border-gray-500 hover:text-gray-700").

Definition render_tabs (activeTab : string) : TabsRoot :=
  {| tabs_className := "flex w-full";
     tabs_value := activeTab;
     tabs_list :=
       [ mkTrigger (trigger_class activeTab "all") "all" "All";
         mkTrigger (trigger_class activeTab "pending") "pending" "Pending";
         mkTrigger (trigger_class activeTab "completed") "completed" "Completed" ] |}.

(** The body of [todos.map((todo) => ...)]: one [<li>] per todo. *)
Definition render_todo (todo : Todo) : Li :=
  {| key := id todo;
     li_className :=
       "rounded-12 border px-4 py-3 shadow-sm "
       +:+ (if String.eqb (status todo) "completed"
            then "border-gray-200 bg-gray-50"
            else "border-gray-200");
     li_checkbox :=
       {| checkbox_id := js_String (id todo);
          checkbox_className :=
            "flex h-6 w-6 items-center justify-center rounded-6 border border-gray-300 focus:border-gray-700 focus:outline-none data-[state=checked]:border-gray-700 data-[state=checked]:bg-gray-700";
          checked := String.eqb (status todo) "completed";
          onCheckedChange := call_handleCheckboxChange (id todo) (status todo);
          checkbox_indicator := CheckIcon "h-4 w-4 text-white" |};
     li_label :=
       {| label_className :=
            "block pl-3 font-medium "
            +:+ (if String.eqb (status todo) "completed"
                 then "text-gray-400 line-through"
                 else "");
          htmlFor := js_String (id todo);
          label_children := body todo |};
     li_button :=
       {| button_className :=
            "grid justify-items-end rounded-full p-2 hover:bg-gray-100 focus:bg-gray-200 focus:outline-none";
          onClick := call_handleDelete (id todo);
          aria_label := "Delete todo";
          button_children := XMarkIcon "h-5 w-5 text-gray-500" |} |}.

(** What [TodoList] returns. *)
Definition TodoList (st : State) : Rendered :=
  {| tabs := render_tabs (activeTab st);
     ul_className := "grid grid-cols-1 gap-y-3";
     ul := render_todo <$> todos st |}.

(** The class tokens of a [className]. *)
Definition classList (className : string) : list string :=
  String.words className.

(** ** Events

    The user acts on a rendered control (the [i]-th trigger, the checkbox or
    the delete button of the [i]-th row); the remote service settles a
    request.  A click on a control that is not rendered does nothing. *)

Inductive Event : Type :=
  | trigger_click (i : nat)
  | checkbox_click (i : nat)
  | button_click (i : nat)
  | getAll_settled (input : list string) (result : option (list Todo))
  | update_settled (success : bool)
  | delete_settled (success : bool).

(** Running the arrow function of a handler attribute. *)
Definition call (h : Handler) : list Request :=
  match h with
  | call_handleCheckboxChange todoId status => handleCheckboxChange todoId status
  | call_handleDelete todoId => handleDelete todoId
  end.

(** A render that changes the input of the query hook asks it for the
    list query of the new input.  Whether a request leaves is the hook's
    decision ([hook_fetch] without [cancelRefetch]). *)
Definition useQuery_fetch (before after : State) : list Request :=
  if decide (statuses (activeTab after) = statuses (activeTab before))
  then []
  else [todo_getAll (statuses (activeTab after))].

(** A successful answer becomes the [data] of its input; a failed one
    leaves the cache as it is. *)
Definition useQuery_settle (input : list string) (result : option (list Todo))
    (st : State) : State :=
  match result with
  | Some l => {| activeTab := activeTab st; queryCache := <[input := l]> (queryCache st) |}
  | None => st
  end.

(** A mutation hook runs its [onSuccess] when the request succeeded; the
    component passes no [onError]. *)
Definition useMutation_settle (onSuccess : State → list Request)
    (success : bool) (st : State) : list Request :=
  if success then onSuccess st else [].

(** One event: the state after it and what the code asks for (see
    [hook_step] for the list queries that leave as requests).  Radix calls
    [onValueChange] with the value of the trigger that was activated, and
    [onCheckedChange] and [onClick] are the attributes of the row. *)
Definition step (st : State) (e : Event) : State * list Request :=
  match e with
  | trigger_click i =>
      match tabs_list (tabs (TodoList st)) !! i with
      | Some tr =>
          let st' := handleTabChange (trigger_value tr) st in
          (st', useQuery_fetch st st')
      | None => (st, [])
      end
  | checkbox_click i =>
      match ul (TodoList st) !! i with
      | Some li => (st, call (onCheckedChange (li_checkbox li)))
      | None => (st, [])
      end
  | button_click i =>
      match ul (TodoList st) !! i with
      | Some li => (st, call (onClick (li_button li)))
      | None => (st, [])
      end
  | getAll_settled input result => (useQuery_settle input result st, [])
  | update_settled success =>
      (st, useMutation_settle updateTodoStatus_onSuccess success st)
  | delete_settled success =>
      (st, useMutation_settle deleteTodo_onSuccess success st)
  end.

(** Mounting the component: the first render sends the list query. *)
Definition mount : State * list Request :=
  (initial, [todo_getAll (statuses (activeTab initial))]).

(** The state after a sequence of events, and what was asked for on the
    way. *)
Fixpoint run (st : State) (es : list Event) : State * list Request :=
  match es with
  | [] => (st, [])
  | e :: es' =>
      let (st1, out1) := step st e in
      let (st2, out2) := run st1 es' in
      (st2, out1 ++ out2)
  end.

Definition session (es : list Event) : State * list Request :=
  let (st, out) := run (fst mount) es in (st, snd mount ++ out).


(** ** The query hook

    [step] gives what the code of the component asks for.  A status update
    or a delete goes to the remote service as it is.  A list query goes
    through the query hook (react-query, as tRPC sets it up, with its
    default options: an answer is stale at once, [abortOnUnmount] is off).
    The hook keeps one fetch at most in flight for each input;
    [fetching] is the set of the inputs with a fetch in flight.  What the
    hook does on its own clock (a retry of a failed fetch, a fetch when
    the window gets the focus again) is no event here: a failed answer is
    the failure after the retries. *)
Record Hook : Type := mkHook {
  hook_state : State;
  fetching : gset (list string);
}.

(** [Query.fetch].  No fetch in flight for the input: one starts and the
    request leaves.  A fetch in flight: with [cancelRefetch], and an
    answer already held for the input, that fetch is cancelled and a new
    request leaves; otherwise the call joins the fetch in flight and
    nothing leaves.  [refetch()] fetches with [cancelRefetch]; the fetch of
    a new input fetches without. *)
Definition hook_fetch (cancelRefetch : bool) (input : list string) (h : Hook)
    : Hook * list Request :=
  if decide (input ∈ fetching h) then
    if cancelRefetch && bool_decide (is_Some (queryCache (hook_state h) !! input))
    then (h, [todo_getAll input])
    else (h, [])
  else
    ({| hook_state := hook_state h; fetching := {[ input ]} ∪ fetching h |},
     [todo_getAll input]).

(** What is asked for, as it leaves: the list queries through the hook, the
    mutations as they are. *)
Fixpoint hook_asks (cancelRefetch : bool) (asked : list Request) (h : Hook)
    : Hook * list Request :=
  match asked with
  | [] => (h, [])
  | todo_getAll input :: asked' =>
      let (h1, out1) := hook_fetch cancelRefetch input h in
      let (h2, out2) := hook_asks cancelRefetch asked' h1 in
      (h2, out1 ++ out2)
  | r :: asked' =>
      let (h2, out2) := hook_asks cancelRefetch asked' h in
      (h2, r :: out2)
  end.

(** One event, with the hook.  [getAll_settled input result] is the
    settling of the fetch in flight for [input]: its answer is taken and
    the fetch ends.  The answer to a request whose fetch was cancelled
    does not reach the cache and is no event; with no fetch in flight for
    [input] the event changes nothing.  The list query of a click on a
    trigger is the fetch of a new input; the list query of a settled
    mutation is the [refetch()] of its [onSuccess]. *)
Definition hook_step (h : Hook) (e : Event) : Hook * list Request :=
  match e with
  | getAll_settled input result =>
      if decide (input ∈ fetching h)
      then ({| hook_state := fst (step (hook_state h) e);
               fetching := fetching h ∖ {[ input ]} |}, [])
      else (h, [])
  | trigger_click _ | checkbox_click _ | button_click _ =>
      let (st', asked) := step (hook_state h) e in
      hook_asks false asked {| hook_state := st'; fetching := fetching h |}
  | update_settled _ | delete_settled _ =>
      let (st', asked) := step (hook_state h) e in
      hook_asks true asked {| hook_state := st'; fetching := fetching h |}
  end.

(** Mounting, with the hook: the fetch of the first input. *)
Definition hook_mount : Hook * list Request :=
  hook_asks false (snd mount) {| hook_state := fst mount; fetching := ∅ |}.

Fixpoint hook_run (h : Hook) (es : list Event) : Hook * list Request :=
  match es with
  | [] => (h, [])
  | e :: es' =>
      let (h1, out1) := hook_step h e in
      let (h2, out2) := hook_run h1 es' in
      (h2, out1 ++ out2)
  end.

(** The hook after a sequence of events, and the requests that left. *)
Definition hook_session (es : list Event) : Hook * list Request :=
  let (h, out) := hook_run (fst hook_mount) es in (h, snd hook_mount ++ out).

(** The events the hook does not drop. *)
Fixpoint delivered (h : Hook) (es : list Event) : list Event :=
  match es with
  | [] => []
  | e :: es' =>
      match e with
      | getAll_settled input _ =>
          if decide (input ∈ fetching h) then [e] else []
      | _ => [e]
      end ++ delivered (fst (hook_step h e)) es'
  end.

(** ** The icons

    [XMarkIcon] and [CheckIcon] are function components: an [<svg>] with
    five attributes of its own, then [{...props}], and one [<path>] child.
    The props of an element are the object JSX builds, a map from names
    to values; a later entry of the object replaces an earlier one, so
    the entries of [props] win over the five written before the spread,
    also when the value is [undefined].  The child written in the JSX
    comes last and replaces a [children] entry of [props]; [key], [ref],
    [__self] and [__source] are the names React (17 and 18) takes out of
    the object and does not pass on as props.  [svg_props] holds the props
    of the [<svg>] other than its child, [path_props] those of the
    child. *)

Inductive PropValue : Type :=
  | str (s : string)
  | num (q : QArith_base.Q)
  | undefined.

Record Svg : Type := mkSvg {
  svg_props : gmap string PropValue;
  path_props : gmap string PropValue;
}.

(** The names of a spread that do not become props of the [<svg>]. *)
Definition not_svg_props : list string :=
  ["children"; "key"; "ref"; "__self"; "__source"].

(** The object of the JSX, without the names that are no props. *)
Definition jsx_props (object : gmap string PropValue) : gmap string PropValue :=
  foldr delete object not_svg_props.

Definition XMarkIcon_svg (props : gmap string PropValue) : Svg :=
  {| svg_props :=
       jsx_props
         (props ∪ {[ "xmlns" := str "http://www.w3.org/2000/svg";
                     "fill" := str "none";
                     "viewBox" := str "0 0 24 24";
                     "strokeWidth" := num (QArith_base.Qmake 3 2);
                     "stroke" := str "currentColor" ]});
     path_props :=
       {[ "strokeLinecap" := str "round";
          "strokeLinejoin" := str "round";
          "d" := str "M6 18L18 6M6 6l12 12" ]} |}.

Definition CheckIcon_svg (props : gmap string PropValue) : Svg :=
  {| svg_props :=
       jsx_props
         (props ∪ {[ "xmlns" := str "http://www.w3.org/2000/svg";
                     "fill" := str "none";
                     "viewBox" := str "0 0 24 24";
                     "strokeWidth" := num (QArith_base.Qmake 3 2);
                     "stroke" := str "currentColor" ]});
     path_props :=
       {[ "strokeLinecap" := str "round";
          "strokeLinejoin" := str "round";
          "d" := str "M4.5 12.75l6 6 9-13.5" ]} |}.

(** An icon element of the tree, rendered: [TodoList] passes [className]
    and nothing else. *)
Definition render_icon (icon : Icon) : Svg :=
  match icon with
  | XMarkIcon className => XMarkIcon_svg {[ "className" := str className ]}
  | CheckIcon className => CheckIcon_svg {[ "className" := str className ]}
  end.

(** The names of the five attributes the icons write before the spread. *)
Definition svg_own_names : gset string :=
  {[ "xmlns"; "fill"; "viewBox"; "strokeWidth"; "stroke" ]}.

(** ** Observations on a session *)

(** The todos the remote service has sent in answer to list queries. *)
Fixpoint fetched (es : list Event) : list Todo :=
  match es with
  | [] => []
  | getAll_settled _ (Some l) :: es' => l ++ fetched es'
  | _ :: es' => fetched es'
  end.

(** Every cached todo is one of [pool]. *)
Definition cache_within (pool : list Todo) (st : State) : Prop :=
  ∀ input l, queryCache st !! input = Some l → ∀ todo, todo ∈ l → todo ∈ pool.

(** A mutation request is about a todo of [pool]: it names its id, and a
    status update asks for the other status of the one it has. *)
Definition targets (pool : list Todo) (r : Request) : Prop :=
  match r with
  | todo_getAll _ => True
  | todoStatus_update todoId s =>
      ∃ todo, todo ∈ pool ∧ id todo = todoId ∧ s = next_status (status todo)
  | todo_delete todoId => ∃ todo, todo ∈ pool ∧ id todo = todoId
  end.

(** ** The specification's words *)

(** The status set a filter stands for: [all] gives {pending, completed},
    any other filter gives the set of that filter alone. *)
Definition implied_statuses (filter : string) : gset string :=
  if decide (filter = "all") then {[ "pending"; "completed" ]} else {[ filter ]}.

(** The remote service answers a list query with todos of the statuses it
    was asked for. *)
Definition honest (e : Event) : Prop :=
  match e with
  | getAll_settled input (Some l) => ∀ todo, todo ∈ l → status todo ∈ input
  | _ => True
  end.

(** Every cached answer holds todos of the statuses of its input. *)
Definition cache_honest (st : State) : Prop :=
  ∀ input l, queryCache st !! input = Some l →
    ∀ todo, todo ∈ l → status todo ∈ input.

(** The answer the cache holds for [input] after the events [es], when it
    held [acc] before them: the result of the last successful list query
    for that input. *)
Fixpoint last_fetch (input : list string) (acc : option (list Todo))
    (es : list Event) : option (list Todo) :=
  match es with
  | [] => acc
  | getAll_settled k (Some l) :: es' =>
      last_fetch input (if decide (k = input) then Some l else acc) es'
  | _ :: es' => last_fetch input acc es'
  end.

(** The events of a mutation: the click that sends it and its settling. *)
Definition mutation_event (e : Event) : bool :=
  match e with
  | checkbox_click _ | button_click _ | update_settled _ | delete_settled _ => true
  | trigger_click _ | getAll_settled _ _ => false
  end.

(** ** Sample data *)

Definition buy_milk : Todo := mkTodo 1 "Buy milk" "pending".

Definition milk_done : Todo := mkTodo 1 "Buy milk" "completed".

Definition walk_dog : Todo := mkTodo 2 "Walk dog" "pending".

(** The [all] tab after the service answered with [l]. *)
Definition showing (l : list Todo) : State :=
  fst (session [getAll_settled ["completed"; "pending"] (Some l)]).

(** The user selects the [pending] tab and the service answers with the
    pending todo. *)
Definition pending_session : list Event :=
  [trigger_click 1; getAll_settled ["pending"] (Some [walk_dog])].

(** The list is on display, the user clicks the checkbox of the first row
    and then selects the [pending] tab; no answer has arrived for either
    request. *)
Definition toggle_then_switch : list Event :=
  [getAll_settled ["completed"; "pending"] (Some [buy_milk]);
   checkbox_click 0; trigger_click 1].

(** ** Basic facts *)

Lemma statuses_all : statuses "all" = ["completed"; "pending"].
Proof. reflexivity. Qed.

Lemma statuses_other filter : filter ≠ "all" → statuses filter = [filter].
Proof.
  intros Hne. unfold statuses.
  destruct (String.eqb_spec filter "all") as [Heq | _]; [contradiction | reflexivity].
Qed.

Lemma statuses_implied filter :
  list_to_set (statuses filter) =@{gset string} implied_statuses filter.
Proof.
  unfold implied_statuses. case_decide as Hall.
  - subst filter. rewrite statuses_all. cbn [list_to_set foldr].
    by rewrite (right_id_L ∅ (∪)), (comm_L (∪)).
  - rewrite statuses_other by assumption. cbn [list_to_set foldr].
    by rewrite (right_id_L ∅ (∪)).
Qed.

Lemma TabValue_triggers st i tr :
  tabs_list (tabs (TodoList st)) !! i = Some tr → TabValue (trigger_value tr).
Proof.
  unfold TabValue. cbn [TodoList tabs render_tabs tabs_list].
  destruct i as [| [| [| i]]]; simpl; intros Hi; [inversion Hi; auto .. | inversion Hi].
Qed.

(** *** Sessions *)

(** An invariant of the steps, under a condition on the events, holds at
    the end of a run, and what it says of the requests of a step holds of
    every request of the run. *)
Lemma run_invariant (P : State → Prop) (Q : Event → Prop) (G : Request → Prop) :
  (∀ st e, P st → Q e →
     P (fst (step st e)) ∧ ∀ r, r ∈ snd (step st e) → G r) →
  ∀ es st, P st → Forall Q es →
    P (fst (run st es)) ∧ ∀ r, r ∈ snd (run st es) → G r.
Proof.
  intros Hstep es. induction es as [| e es IH]; intros st HP HQ; simpl.
  - split; [assumption | intros r Hr; inversion Hr].
  - inversion HQ as [| ? ? Hq Hqs]; subst.
    destruct (Hstep st e HP Hq) as [HP1 HG1].
    destruct (step st e) as [st1 out1]; cbn [fst snd] in *.
    destruct (IH st1 HP1 Hqs) as [HP2 HG2].
    destruct (run st1 es) as [st2 out2]; cbn [fst snd] in *.
    split; [assumption |].
    intros r [Hr | Hr]%elem_of_app; auto.
Qed.

Lemma session_invariant (P : State → Prop) (Q : Event → Prop) (G : Request → Prop) :
  P initial →
  (∀ r, r ∈ snd mount → G r) →
  (∀ st e, P st → Q e →
     P (fst (step st e)) ∧ ∀ r, r ∈ snd (step st e) → G r) →
  ∀ es, Forall Q es →
    P (fst (session es)) ∧ ∀ r, r ∈ snd (session es) → G r.
Proof.
  intros Hinit Hmount Hstep es HQ. unfold session.
  destruct (run_invariant P Q G Hstep es (fst mount) Hinit HQ) as [HP HG].
  destruct (run (fst mount) es) as [st out]; cbn [fst snd] in *.
  split; [assumption |].
  intros r [Hr | Hr]%elem_of_app; auto.
Qed.

(** *** The steps *)

(** The three ways a step treats the state: it is left alone, a rendered
    trigger sets the tab, or a successful answer enters the cache. *)
Lemma step_state st e :
  fst (step st e) = st
  ∨ (∃ i tr, e = trigger_click i
       ∧ tabs_list (tabs (TodoList st)) !! i = Some tr
       ∧ fst (step st e) = handleTabChange (trigger_value tr) st)
  ∨ (∃ input l, e = getAll_settled input (Some l)
       ∧ fst (step st e) = useQuery_settle input (Some l) st).
Proof.
  destruct e as [i | i | i | input [l |] | ok | ok]; cbn [step].
  - destruct (tabs_list (tabs (TodoList st)) !! i) as [tr |] eqn:Hi; [| by left].
    right; left. by exists i, tr.
  - left. by destruct (ul (TodoList st) !! i).
  - left. by destruct (ul (TodoList st) !! i).
  - right; right. by exists input, l.
  - by left.
  - by left.
  - by left.
Qed.

(** Every list query a step sends is the query of the tab the step ends
    in. *)
Lemma step_getAll st e input :
  todo_getAll input ∈ snd (step st e) →
  input = statuses (activeTab (fst (step st e))).
Proof.
  destruct e as [i | i | i | k [l |] | ok | ok]; cbn [step].
  - destruct (tabs_list (tabs (TodoList st)) !! i) as [tr |] eqn:Hi;
      cbn [fst snd]; [| by intros ?%elem_of_nil].
    unfold useQuery_fetch. case_decide; [by intros ?%elem_of_nil |].
    intros Hin%list_elem_of_singleton. by inversion Hin.
  - destruct (ul (TodoList st) !! i) as [li |] eqn:Hi;
      cbn [fst snd]; [| by intros ?%elem_of_nil].
    apply list_lookup_fmap_Some in Hi as (todo & -> & _).
    intros Hin%list_elem_of_singleton. inversion Hin.
  - destruct (ul (TodoList st) !! i) as [li |] eqn:Hi;
      cbn [fst snd]; [| by intros ?%elem_of_nil].
    apply list_lookup_fmap_Some in Hi as (todo & -> & _).
    intros Hin%list_elem_of_singleton. inversion Hin.
  - by intros ?%elem_of_nil.
  - by intros ?%elem_of_nil.
  - destruct ok; cbn [fst snd useMutation_settle]; [| by intros ?%elem_of_nil].
    intros Hin%list_elem_of_singleton. by inversion Hin.
  - destruct ok; cbn [fst snd useMutation_settle]; [| by intros ?%elem_of_nil].
    intros Hin%list_elem_of_singleton. by inversion Hin.
Qed.

Lemma step_TabValue st e :
  TabValue (activeTab st) → TabValue (activeTab (fst (step st e))).
Proof.
  intros Hst.
  destruct (step_state st e) as [-> | [(i & tr & _ & Hi & ->) | (k & l & _ & ->)]].
  - assumption.
  - cbn [handleTabChange setActiveTab activeTab]. by eapply TabValue_triggers.
  - assumption.
Qed.

Lemma step_cache_honest st e :
  cache_honest st → honest e → cache_honest (fst (step st e)).
Proof.
  intros Hst He.
  destruct (step_state st e) as [-> | [(i & tr & _ & Hi & ->) | (k & l & -> & ->)]].
  - assumption.
  - assumption.
  - intros input l' Hl'. cbn [useQuery_settle queryCache] in Hl'.
    destruct (decide (k = input)) as [-> | Hne].
    + rewrite lookup_insert_eq in Hl'. inversion Hl'; subst. exact He.
    + rewrite lookup_insert_ne in Hl' by assumption. by eapply Hst.
Qed.

(** The tab of a session is always one of the three values. *)
Lemma session_TabValue es : TabValue (activeTab (fst (session es))).
Proof.
  pose proof (session_invariant (λ st, TabValue (activeTab st))
                (λ _, True) (λ _, True)) as Hinv.
  apply Hinv.
  - by left.
  - done.
  - intros st e Hst _. split; [by apply step_TabValue | done].
  - by apply Forall_true.
Qed.

Lemma session_cache_honest es :
  Forall honest es → cache_honest (fst (session es)).
Proof.
  intros Hes.
  apply (session_invariant cache_honest honest (λ _, True)); try done.
  intros st e Hst He. split; [by apply step_cache_honest | done].
Qed.

(** Every list query of a session asks for the statuses of one of the
    three tabs. *)
Lemma session_getAll es input :
  todo_getAll input ∈ snd (session es) →
  ∃ filter, TabValue filter ∧ input = statuses filter.
Proof.
  pose (G := λ r, match r with
                  | todo_getAll k => ∃ filter, TabValue filter ∧ k = statuses filter
                  | _ => True
                  end).
  intros Hin.
  enough (HG : ∀ r, r ∈ snd (session es) → G r) by exact (HG _ Hin).
  apply (session_invariant (λ st, TabValue (activeTab st)) (λ _, True) G).
  - by left.
  - intros r ->%list_elem_of_singleton. exists "all". split; [by left | done].
  - intros st e Hst _.
    pose proof (step_TabValue st e Hst) as Hst'.
    split; [assumption |].
    intros [k | |] Hr; [| done ..].
    exists (activeTab (fst (step st e))). split; [assumption |].
    by apply step_getAll.
  - by apply Forall_true.
Qed.

(** A step changes the answer cached for [input] as [last_fetch] says. *)
Lemma step_last_fetch st e input :
  queryCache (fst (step st e)) !! input = last_fetch input (queryCache st !! input) [e].
Proof.
  destruct (step_state st e) as [Hst | [(i & tr & -> & Hi & ->) | (k & l & -> & ->)]].
  - rewrite Hst. destruct e as [i | i | i | k [l |] | ok | ok]; try reflexivity.
    cbn [step fst useQuery_settle] in Hst. cbn [last_fetch].
    case_decide as Hk; [subst k | reflexivity].
    rewrite <- Hst at 1. cbn [queryCache]. by rewrite lookup_insert_eq.
  - reflexivity.
  - cbn [useQuery_settle queryCache last_fetch].
    case_decide as Hk; [subst k; by rewrite lookup_insert_eq |].
    by rewrite lookup_insert_ne.
Qed.

Lemma run_last_fetch es st input :
  queryCache (fst (run st es)) !! input = last_fetch input (queryCache st !! input) es.
Proof.
  revert st. induction es as [| e es IH]; intros st; [reflexivity |].
  cbn [run]. pose proof (step_last_fetch st e input) as He.
  destruct (step st e) as [st1 out1]. specialize (IH st1).
  destruct (run st1 es) as [st2 out2]. cbn [fst] in *.
  rewrite IH, He.
  destruct e as [i | i | i | k [l |] | ok | ok]; reflexivity.
Qed.

(** *** The hook *)

Lemma hook_eta h : {| hook_state := hook_state h; fetching := fetching h |} = h.
Proof. by destruct h. Qed.

Lemma hook_fetch_state c input h :
  hook_state (fst (hook_fetch c input h)) = hook_state h.
Proof.
  unfold hook_fetch. case_decide; [| reflexivity].
  by destruct (c && bool_decide (is_Some (queryCache (hook_state h) !! input))).
Qed.

Lemma hook_fetch_fetching c input h :
  input ∈ fetching (fst (hook_fetch c input h)).
Proof.
  unfold hook_fetch. case_decide as Hin.
  - by destruct (c && bool_decide (is_Some (queryCache (hook_state h) !! input))).
  - cbn [fst fetching]. apply elem_of_union_l. by apply elem_of_singleton.
Qed.

Lemma hook_fetch_sent c input h r :
  r ∈ snd (hook_fetch c input h) → r = todo_getAll input.
Proof.
  unfold hook_fetch. case_decide.
  - destruct (c && bool_decide (is_Some (queryCache (hook_state h) !! input)));
      cbn [snd]; [by intros ?%list_elem_of_singleton | by intros ?%elem_of_nil].
  - cbn [snd]. by intros ?%list_elem_of_singleton.
Qed.

(** The hook changes nothing of the component state, and lets out nothing
    that was not asked for. *)
Lemma hook_asks_spec c asked : ∀ h,
  hook_state (fst (hook_asks c asked h)) = hook_state h
  ∧ ∀ r, r ∈ snd (hook_asks c asked h) → r ∈ asked.
Proof.
  induction asked as [| a asked IH]; intros h.
  - split; [reflexivity | by intros r ?%elem_of_nil].
  - destruct a as [input | todoId s | todoId]; cbn [hook_asks].
    + pose proof (hook_fetch_state c input h) as Hst.
      pose proof (hook_fetch_sent c input h) as Hsent.
      destruct (hook_fetch c input h) as [h1 out1]. cbn [fst snd] in Hst, Hsent.
      destruct (IH h1) as [Hst2 Hsub2].
      destruct (hook_asks c asked h1) as [h2 out2]. cbn [fst snd] in *.
      split; [congruence |].
      intros r [Hr | Hr]%elem_of_app.
      * rewrite (Hsent r Hr). apply list_elem_of_here.
      * apply list_elem_of_further. by apply Hsub2.
    + destruct (IH h) as [Hst2 Hsub2].
      destruct (hook_asks c asked h) as [h2 out2]. cbn [fst snd] in *.
      split; [assumption |].
      intros r [-> | Hr]%elem_of_cons;
        [apply list_elem_of_here | apply list_elem_of_further; by apply Hsub2].
    + destruct (IH h) as [Hst2 Hsub2].
      destruct (hook_asks c asked h) as [h2 out2]. cbn [fst snd] in *.
      split; [assumption |].
      intros r [-> | Hr]%elem_of_cons;
        [apply list_elem_of_here | apply list_elem_of_further; by apply Hsub2].
Qed.

(** A step of the hook is the step of the component on the event, or no
    step at all when the hook drops the event; what leaves was asked for
    by that step. *)
Lemma hook_step_spec h e :
  fst (run (hook_state h) (delivered h [e])) = hook_state (fst (hook_step h e))
  ∧ ∀ r, r ∈ snd (hook_step h e) → r ∈ snd (run (hook_state h) (delivered h [e])).
Proof.
  assert (Hasks : ∀ c,
    let (st', asked) := step (hook_state h) e in
    hook_state (fst (hook_asks c asked {| hook_state := st'; fetching := fetching h |}))
      = fst (step (hook_state h) e)
    ∧ ∀ r, r ∈ snd (hook_asks c asked {| hook_state := st'; fetching := fetching h |})
           → r ∈ snd (step (hook_state h) e) ++ []).
  { intros c. destruct (step (hook_state h) e) as [st' asked] eqn:Hstep.
    destruct (hook_asks_spec c asked {| hook_state := st'; fetching := fetching h |})
      as [Hst Hsub].
    split; [exact Hst |]. intros r Hr. rewrite (right_id_L [] (++)). by apply Hsub. }
  destruct e as [i | i | i | input result | ok | ok];
    cbn [delivered hook_step app run];
    try (specialize (Hasks false); destruct (step (hook_state h) _) as [st' asked];
         cbn [fst snd] in *; destruct Hasks as [Hst Hsub]; split; [by rewrite Hst | exact Hsub]);
    try (specialize (Hasks true); destruct (step (hook_state h) _) as [st' asked];
         cbn [fst snd] in *; destruct Hasks as [Hst Hsub]; split; [by rewrite Hst | exact Hsub]).
  case_decide as Hin; cbn [app run step fst snd hook_state].
  - split; [reflexivity | by intros r ?%elem_of_nil].
  - split; [reflexivity | by intros r ?%elem_of_nil].
Qed.

Lemma run_app st es1 es2 :
  run st (es1 ++ es2) =
  (fst (run (fst (run st es1)) es2), snd (run st es1) ++ snd (run (fst (run st es1)) es2)).
Proof.
  revert st. induction es1 as [| e es1 IH]; intros st; cbn [app run].
  - cbn [fst snd app]. by destruct (run st es2).
  - destruct (step st e) as [st1 out1]. rewrite IH.
    destruct (run st1 es1) as [st2 out2]. cbn [fst snd].
    by rewrite (assoc_L (++)).
Qed.

(** A run of the hook is the run of the component on the events the hook
    delivers, and every request that leaves is one that run asks for: what
    holds of every session of the component holds with the hook. *)
Lemma hook_run_delivered es : ∀ h,
  hook_state (fst (hook_run h es)) = fst (run (hook_state h) (delivered h es))
  ∧ ∀ r, r ∈ snd (hook_run h es) → r ∈ snd (run (hook_state h) (delivered h es)).
Proof.
  induction es as [| e es IH]; intros h.
  - split; [reflexivity | by intros r ?%elem_of_nil].
  - destruct (hook_step_spec h e) as [Hst Hsub].
    cbn [delivered] in Hst, Hsub |- *. rewrite (right_id_L [] (++)) in Hst, Hsub.
    cbn [hook_run]. rewrite run_app.
    destruct (hook_step h e) as [h1 out1]. cbn [fst snd] in *.
    destruct (IH h1) as [Hst2 Hsub2].
    destruct (hook_run h1 es) as [h2 out2]. cbn [fst snd] in *.
    rewrite Hst. split; [exact Hst2 |].
    intros r [Hr | Hr]%elem_of_app; apply elem_of_app; [left | right]; auto.
Qed.

(** The same for a session: the requests that leave are among those the
    session of the delivered events asks for. *)
Lemma hook_session_delivered es :
  hook_state (fst (hook_session es)) = fst (session (delivered (fst hook_mount) es))
  ∧ ∀ r, r ∈ snd (hook_session es) →
      r ∈ snd (session (delivered (fst hook_mount) es)).
Proof.
  unfold hook_session, session.
  destruct (hook_run_delivered es (fst hook_mount)) as [Hst Hsub].
  destruct (hook_asks_spec false (snd mount) {| hook_state := fst mount; fetching := ∅ |})
    as [Hmount Hsent].
  fold hook_mount in Hmount, Hsent. cbn [hook_state] in Hmount.
  rewrite Hmount in Hst, Hsub.
  destruct (hook_run (fst hook_mount) es) as [h out].
  destruct (run (fst mount) (delivered (fst hook_mount) es)) as [st asked].
  cbn [fst snd] in *. split; [exact Hst |].
  intros r [Hr | Hr]%elem_of_app; apply elem_of_app; [left | right]; auto.
Qed.

(** * The claims *)

(** C1. The list query asks for the statuses the filter stands for: the
    input computed from the tab is, as a set, {pending, completed} for
    [all], {pending} for [pending] and {completed} for [completed]; every
    list query a session sends is such an input; and when the remote
    service answers each query with todos of the statuses asked for, every
    todo on display has a status of the active filter's set. *)
Theorem getAll_statuses_implied :
  (∀ filter, list_to_set (statuses filter) =@{gset string} implied_statuses filter)
  ∧ (list_to_set (statuses "all") =@{gset string} {[ "pending"; "completed" ]}
     ∧ list_to_set (statuses "pending") =@{gset string} {[ "pending" ]}
     ∧ list_to_set (statuses "completed") =@{gset string} {[ "completed" ]})
  ∧ (∀ es input, todo_getAll input ∈ snd (session es) →
       ∃ filter, TabValue filter ∧ input = statuses filter
                 ∧ list_to_set input =@{gset string} implied_statuses filter)
  ∧ (∀ es, Forall honest es →
       ∀ todo, todo ∈ todos (fst (session es)) →
         status todo ∈ implied_statuses (activeTab (fst (session es)))).
Proof.
  split; [exact statuses_implied |].
  split; [repeat split; apply (statuses_implied _) |].
  split.
  - intros es input Hin.
    destruct (session_getAll es input Hin) as (filter & Hf & ->).
    exists filter. auto using statuses_implied.
  - intros es Hes todo Hin.
    pose proof (session_cache_honest es Hes) as Hc.
    set (st := fst (session es)) in *.
    unfold todos, data in Hin.
    destruct (queryCache st !! statuses (activeTab st)) as [l |] eqn:Hl;
      cbn [default] in Hin; [| by apply elem_of_nil in Hin].
    rewrite <- statuses_implied. apply elem_of_list_to_set.
    by eapply Hc.
Qed.

Lemma pending_session_honest : Forall honest pending_session.
Proof.
  repeat (apply Forall_cons; split); try done.
  intros todo ->%list_elem_of_singleton. by apply list_elem_of_singleton.
Qed.

Lemma getAll_statuses_implied_witness :
  Forall honest pending_session
  ∧ ∀ todo, todo ∈ todos (fst (session pending_session)) →
      status todo ∈ implied_statuses (activeTab (fst (session pending_session))).
Proof.
  split; [exact pending_session_honest |].
  apply getAll_statuses_implied. exact pending_session_honest.
Defined.

(** The scenario of the specification: with the [pending] tab selected and
    a service that answers with the pending todo alone, one row is
    rendered, for the todo with id 2. *)
Example pending_tab_scenario :
  snd (session pending_session)
    = [todo_getAll ["completed"; "pending"]; todo_getAll ["pending"]]
  ∧ key <$> ul (TodoList (fst (session pending_session))) = [2].
Proof. split; vm_compute; reflexivity. Qed.

(** C2. The checkbox of a row asks the remote service for the other status
    of its todo: [completed] for a pending todo, [pending] for a completed
    one; the click changes nothing in the component. *)
Theorem toggle_requests_opposite_status st i todo :
  todos st !! i = Some todo →
  (status todo = "pending" →
     step st (checkbox_click i) = (st, [todoStatus_update (id todo) "completed"]))
  ∧ (status todo = "completed" →
     step st (checkbox_click i) = (st, [todoStatus_update (id todo) "pending"]))
  ∧ handleCheckboxChange (id todo) "pending" = [todoStatus_update (id todo) "completed"]
  ∧ handleCheckboxChange (id todo) "completed" = [todoStatus_update (id todo) "pending"].
Proof.
  intros Hi. cbn [step TodoList ul].
  rewrite list_lookup_fmap, Hi. cbn [fmap option_fmap option_map].
  cbn [render_todo li_checkbox onCheckedChange call].
  unfold handleCheckboxChange.
  repeat split; try reflexivity; intros ->; reflexivity.
Qed.

Lemma toggle_requests_opposite_status_witness :
  step (showing [buy_milk]) (checkbox_click 0)
    = (showing [buy_milk], [todoStatus_update 1 "completed"])
  ∧ step (showing [milk_done]) (checkbox_click 0)
    = (showing [milk_done], [todoStatus_update 1 "pending"]).
Proof.
  split.
  - apply (toggle_requests_opposite_status (showing [buy_milk]) 0%nat buy_milk);
      reflexivity.
  - apply (toggle_requests_opposite_status (showing [milk_done]) 0%nat milk_done);
      reflexivity.
Defined.

(** C3, as the code has it.  When a status update or a delete succeeds,
    [onSuccess] calls [refetch] on the list query of the active tab.  The
    list query leaves again, with the input of that tab, unless a fetch for
    that input is in flight and no answer is held for it yet: then the call
    joins that fetch and nothing leaves.  Either way a fetch for the input
    of the active tab is in flight afterwards, the component computes no
    list of its own (its state is as before), and when that fetch is
    answered the list on display is the answer of the service. *)
Theorem successful_mutation_calls_refetch h e :
  e = update_settled true ∨ e = delete_settled true →
  let input := statuses (activeTab (hook_state h)) in
  let h' := fst (hook_step h e) in
  hook_state h' = hook_state h
  ∧ input ∈ fetching h'
  ∧ (input ∈ fetching h ∧ data (hook_state h) = None → hook_step h e = (h, []))
  ∧ (¬ (input ∈ fetching h ∧ data (hook_state h) = None) →
       snd (hook_step h e) = [todo_getAll input])
  ∧ ∀ l,
      let h'' := fst (hook_step h' (getAll_settled input (Some l))) in
      activeTab (hook_state h'') = activeTab (hook_state h)
      ∧ todos (hook_state h'') = l
      ∧ ul (TodoList (hook_state h'')) = render_todo <$> l.
Proof.
  intros He input h'.
  assert (Hstep : hook_step h e = hook_fetch true input h).
  { destruct He as [-> | ->]; cbn [hook_step step useMutation_settle hook_asks];
      unfold updateTodoStatus_onSuccess, deleteTodo_onSuccess, refetchTodos;
      cbn [hook_asks]; rewrite hook_eta; fold input;
      destruct (hook_fetch true input h) as [h1 out1]; cbn [hook_asks];
      by rewrite (right_id_L [] (++)). }
  subst h'. rewrite Hstep.
  pose proof (hook_fetch_state true input h) as Hstate.
  pose proof (hook_fetch_fetching true input h) as Hfetching.
  split; [exact Hstate |]. split; [exact Hfetching |].
  split; [| split].
  - intros [Hin Hdata]. unfold hook_fetch. rewrite decide_True by exact Hin.
    unfold data in Hdata. fold input in Hdata. by rewrite Hdata.
  - intros Hnot. unfold hook_fetch. case_decide as Hin; [| reflexivity].
    unfold data in Hnot. fold input in Hnot.
    destruct (queryCache (hook_state h) !! input) as [l |] eqn:Hl.
    + cbn [andb]. rewrite bool_decide_eq_true_2 by eauto. reflexivity.
    + by destruct Hnot.
  - intros l h''. subst h''.
    set (h1 := fst (hook_fetch true input h)) in *.
    cbn [hook_step]. rewrite decide_True by exact Hfetching.
    cbn [fst hook_state step useQuery_settle]. rewrite Hstate.
    assert (Hl : todos {| activeTab := activeTab (hook_state h);
                          queryCache := <[input := l]> (queryCache (hook_state h)) |} = l).
    { unfold todos, data. cbn [activeTab queryCache]. fold input.
      by rewrite lookup_insert_eq. }
    split; [reflexivity |]. split; [exact Hl |].
    cbn [TodoList ul]. by rewrite Hl.
Qed.

Lemma successful_mutation_calls_refetch_witness :
  snd (hook_step (fst (hook_session
                         [getAll_settled ["completed"; "pending"] (Some [buy_milk]);
                          checkbox_click 0]))
                 (update_settled true))
    = [todo_getAll ["completed"; "pending"]]
  ∧ hook_step (fst (hook_session toggle_then_switch)) (delete_settled true)
    = (fst (hook_session toggle_then_switch), []).
Proof.
  split.
  - apply (successful_mutation_calls_refetch
             (fst (hook_session
                     [getAll_settled ["completed"; "pending"] (Some [buy_milk]);
                      checkbox_click 0]))
             (update_settled true)); [by left |].
    intros [_ Hdata]. vm_compute in Hdata. discriminate Hdata.
  - apply (successful_mutation_calls_refetch
             (fst (hook_session toggle_then_switch)) (delete_settled true));
      [by right |].
    split; [| reflexivity].
    apply (bool_decide_unpack _). vm_compute. exact I.
Defined.

(** A successful update after which no list query leaves: the list is on
    display under [all], the user clicks a checkbox and selects the
    [pending] tab, and the update succeeds before the list query of the
    [pending] tab is answered.  [refetch] joins that query. *)
Lemma successful_mutation_without_request :
  snd (hook_session toggle_then_switch)
    = [todo_getAll ["completed"; "pending"]; todoStatus_update 1 "completed";
       todo_getAll ["pending"]]
  ∧ activeTab (hook_state (fst (hook_session toggle_then_switch))) = "pending"
  ∧ snd (hook_step (fst (hook_session toggle_then_switch)) (update_settled true)) = []
  ∧ todo_getAll (statuses "pending")
      ∉ snd (hook_step (fst (hook_session toggle_then_switch)) (update_settled true)).
Proof.
  assert (Hsent : snd (hook_step (fst (hook_session toggle_then_switch))
                         (update_settled true)) = [])
    by (vm_compute; reflexivity).
  split; [vm_compute; reflexivity |]. split; [vm_compute; reflexivity |].
  split; [exact Hsent |]. rewrite Hsent. apply not_elem_of_nil.
Qed.

(** C4. In every rendered row the checkbox is checked exactly when the
    todo of the row is completed, and the class of the label has the
    [line-through] token exactly when it is completed. *)
Theorem row_reflects_status st i li :
  ul (TodoList st) !! i = Some li →
  ∃ todo, todos st !! i = Some todo
    ∧ (checked (li_checkbox li) = true ↔ status todo = "completed")
    ∧ ("line-through" ∈ classList (label_className (li_label li))
       ↔ status todo = "completed").
Proof.
  intros Hi. cbn [TodoList ul] in Hi.
  apply list_lookup_fmap_Some in Hi as (todo & -> & Htodo).
  exists todo. split; [assumption |].
  cbn [render_todo li_checkbox li_label checked label_className].
  destruct (String.eqb_spec (status todo) "completed") as [Heq | Hne].
  - split; [done |]. split; [done | intros _].
    vm_compute. do 4 apply list_elem_of_further. apply list_elem_of_here.
  - split; [done |]. split; [| done].
    intros Hin. exfalso. vm_compute in Hin.
    repeat (apply elem_of_cons in Hin as [Hin | Hin]; [discriminate Hin |]).
    by apply elem_of_nil in Hin.
Qed.

Lemma row_reflects_status_witness :
  ∃ todo, todos (showing [milk_done; buy_milk]) !! 1%nat = Some todo
    ∧ (checked (li_checkbox (render_todo buy_milk)) = true ↔ status todo = "completed")
    ∧ ("line-through" ∈ classList (label_className (li_label (render_todo buy_milk)))
       ↔ status todo = "completed").
Proof.
  apply (row_reflects_status (showing [milk_done; buy_milk]) 1%nat (render_todo buy_milk)).
  reflexivity.
Defined.

(** C5. A failed status update or delete leaves the component as it was and
    sends nothing.  No event of a mutation (the click that sends it, its
    success, its failure) changes the state, so nothing is applied ahead of
    the service and nothing is taken back; in every session the data on
    display is the result of the last successful list query for the input
    of the active tab ([undefined], shown as the empty list, when there was
    none). *)
Theorem failed_mutation_keeps_display :
  (∀ st, step st (update_settled false) = (st, [])
         ∧ step st (delete_settled false) = (st, []))
  ∧ (∀ st e, mutation_event e = true →
       fst (step st e) = st ∧ TodoList (fst (step st e)) = TodoList st)
  ∧ (∀ es, data (fst (session es))
           = last_fetch (statuses (activeTab (fst (session es)))) None es).
Proof.
  split; [intros st; split; reflexivity |]. split.
  - intros st e He.
    assert (Hst : fst (step st e) = st).
    { destruct (step_state st e) as
        [Hst | [(i & tr & -> & _) | (k & l & -> & _)]]; [exact Hst | done ..]. }
    by rewrite Hst.
  - intros es. unfold data, session.
    pose proof (run_last_fetch es (fst mount)) as Hrun.
    destruct (run (fst mount) es) as [st out]. cbn [fst] in *.
    by rewrite Hrun.
Qed.

Lemma failed_mutation_keeps_display_witness :
  fst (step (showing [buy_milk]) (checkbox_click 0)) = showing [buy_milk]
  ∧ TodoList (fst (step (showing [buy_milk]) (checkbox_click 0)))
    = TodoList (showing [buy_milk]).
Proof.
  apply (proj1 (proj2 failed_mutation_keeps_display)). reflexivity.
Defined.

(** C6. [activeTab] starts as [all], and a step that is not the click of a
    tab trigger leaves it as it is: the answer to a list query, a failed
    list query, the click of a checkbox or of a delete button, and the
    settling of either mutation. *)
Theorem activeTab_changed_by_tabs_only :
  activeTab initial = "all"
  ∧ activeTab (fst mount) = "all"
  ∧ ∀ st e, (∀ i, e ≠ trigger_click i) →
      activeTab (fst (step st e)) = activeTab st.
Proof.
  split; [reflexivity |]. split; [reflexivity |].
  intros st e Hne.
  destruct (step_state st e) as [-> | [(i & tr & -> & _) | (k & l & _ & ->)]].
  - reflexivity.
  - by destruct (Hne i).
  - reflexivity.
Qed.

Lemma activeTab_changed_by_tabs_only_witness :
  activeTab (fst (step (showing [buy_milk]) (delete_settled true)))
  = activeTab (showing [buy_milk]).
Proof.
  apply (proj2 (proj2 activeTab_changed_by_tabs_only)). intros i. discriminate.
Defined.

(** C7. The values the tab control passes to [handleTabChange] are the
    values of its three triggers, [all], [pending] and [completed];
    [handleTabChange] stores the value it is given, whatever the state, and
    has no failing case; so in every session [activeTab] is one of the
    three values. *)
Theorem activeTab_always_valid :
  (∀ st i tr, tabs_list (tabs (TodoList st)) !! i = Some tr →
     TabValue (trigger_value tr)
     ∧ step st (trigger_click i)
       = (handleTabChange (trigger_value tr) st,
          useQuery_fetch st (handleTabChange (trigger_value tr) st)))
  ∧ (∀ st, trigger_value <$> tabs_list (tabs (TodoList st))
           = ["all"; "pending"; "completed"])
  ∧ (∀ value st, activeTab (handleTabChange value st) = value
                 ∧ queryCache (handleTabChange value st) = queryCache st)
  ∧ (∀ es, TabValue (activeTab (fst (session es)))).
Proof.
  split.
  { intros st i tr Hi. split; [by eapply TabValue_triggers |].
    cbn [step]. by rewrite Hi. }
  split; [reflexivity |].
  split; [intros value st; split; reflexivity |].
  exact session_TabValue.
Qed.

Lemma activeTab_always_valid_witness :
  TabValue "pending"
  ∧ step initial (trigger_click 1)
    = (handleTabChange "pending" initial,
       useQuery_fetch initial (handleTabChange "pending" initial)).
Proof.
  apply (proj1 activeTab_always_valid initial 1%nat
           (mkTrigger (trigger_class "all" "pending") "pending" "Pending")).
  reflexivity.
Defined.

(** C8. While no answer has arrived for the input of the active tab, the
    component renders, and its list is empty; a failed list query leaves it
    so. *)
Theorem no_data_renders_empty_list st :
  data st = None →
  todos st = []
  ∧ ul (TodoList st) = []
  ∧ ∀ input,
      let st' := fst (step st (getAll_settled input None)) in
      st' = st ∧ data st' = None ∧ ul (TodoList st') = [].
Proof.
  intros Hdata.
  assert (Htodos : todos st = []) by (unfold todos; by rewrite Hdata).
  assert (Hul : ul (TodoList st) = []) by (cbn [TodoList ul]; by rewrite Htodos).
  repeat split; assumption.
Qed.

Lemma no_data_renders_empty_list_witness :
  todos (fst mount) = []
  ∧ ul (TodoList (fst mount)) = []
  ∧ ∀ input,
      let st' := fst (step (fst mount) (getAll_settled input None)) in
      st' = fst mount ∧ data st' = None ∧ ul (TodoList st') = [].
Proof.
  apply (no_data_renders_empty_list (fst mount)). reflexivity.
Defined.

(** C9. In every rendered row the [id] of the checkbox and the [htmlFor] of
    the label are both [String(todo.id)] for the todo of the row, and the
    delete button, whose only child is the X icon, has the [aria-label]
    "Delete todo". *)
Theorem row_accessible_names st i li :
  ul (TodoList st) !! i = Some li →
  ∃ todo, todos st !! i = Some todo
    ∧ checkbox_id (li_checkbox li) = js_String (id todo)
    ∧ htmlFor (li_label li) = js_String (id todo)
    ∧ htmlFor (li_label li) = checkbox_id (li_checkbox li)
    ∧ label_children (li_label li) = body todo
    ∧ aria_label (li_button li) = "Delete todo"
    ∧ button_children (li_button li) = XMarkIcon "h-5 w-5 text-gray-500".
Proof.
  intros Hi. cbn [TodoList ul] in Hi.
  apply list_lookup_fmap_Some in Hi as (todo & -> & Htodo).
  exists todo. by repeat split.
Qed.

Lemma row_accessible_names_witness :
  ∃ todo, todos (showing [buy_milk]) !! 0%nat = Some todo
    ∧ checkbox_id (li_checkbox (render_todo buy_milk)) = js_String (id todo)
    ∧ htmlFor (li_label (render_todo buy_milk)) = js_String (id todo)
    ∧ htmlFor (li_label (render_todo buy_milk))
      = checkbox_id (li_checkbox (render_todo buy_milk))
    ∧ label_children (li_label (render_todo buy_milk)) = body todo
    ∧ aria_label (li_button (render_todo buy_milk)) = "Delete todo"
    ∧ button_children (li_button (render_todo buy_milk)) = XMarkIcon "h-5 w-5 text-gray-500".
Proof.
  apply (row_accessible_names (showing [buy_milk]) 0%nat (render_todo buy_milk)).
  reflexivity.
Defined.

(** C10. On the two statuses the status [handleCheckboxChange] asks for is
    an involution: asking twice gives the status back. *)
Theorem next_status_involutive s :
  TodoStatus s → next_status (next_status s) = s.
Proof. intros [-> | ->]; reflexivity. Qed.

Lemma next_status_involutive_witness :
  next_status (next_status "pending") = "pending"
  ∧ next_status (next_status "completed") = "completed".
Proof.
  split; apply next_status_involutive; [by left | by right].
Defined.

(** * Scenarios of the specification *)

(** One pending todo under the [all] tab: an unchecked checkbox and a label
    without the strike-through. *)
Example scenario_pending_row :
  ul (TodoList (showing [buy_milk])) = [render_todo buy_milk]
  ∧ checked (li_checkbox (render_todo buy_milk)) = false
  ∧ label_children (li_label (render_todo buy_milk)) = "Buy milk"
  ∧ classList (label_className (li_label (render_todo buy_milk)))
    = ["block"; "pl-3"; "font-medium"].
Proof. repeat split; vm_compute; reflexivity. Qed.

(** The todo is toggled, the service confirms and answers the list query
    with the completed todo: a checked checkbox and a struck-through
    label. *)
Example scenario_toggle :
  let es := [getAll_settled ["completed"; "pending"] (Some [buy_milk]);
             checkbox_click 0; update_settled true;
             getAll_settled ["completed"; "pending"] (Some [milk_done])] in
  snd (session es)
    = [todo_getAll ["completed"; "pending"]; todoStatus_update 1 "completed";
       todo_getAll ["completed"; "pending"]]
  ∧ ul (TodoList (fst (session es))) = [render_todo milk_done]
  ∧ checked (li_checkbox (render_todo milk_done)) = true
  ∧ classList (label_className (li_label (render_todo milk_done)))
    = ["block"; "pl-3"; "font-medium"; "text-gray-400"; "line-through"].
Proof. cbv zeta. repeat split; vm_compute; reflexivity. Qed.

(** The todo is deleted and the service answers the list query with no
    todo: the list is empty. *)
Example scenario_delete :
  let es := [getAll_settled ["completed"; "pending"] (Some [buy_milk]);
             button_click 0; delete_settled true;
             getAll_settled ["completed"; "pending"] (Some [])] in
  snd (session es)
    = [todo_getAll ["completed"; "pending"]; todo_delete 1;
       todo_getAll ["completed"; "pending"]]
  ∧ ul (TodoList (fst (session es))) = [].
Proof. cbv zeta. split; vm_compute; reflexivity. Qed.

(** A failed update: nothing is sent and the row stays as it was. *)
Example scenario_failed_toggle :
  let es := [getAll_settled ["completed"; "pending"] (Some [buy_milk]);
             checkbox_click 0; update_settled false] in
  snd (session es)
    = [todo_getAll ["completed"; "pending"]; todoStatus_update 1 "completed"]
  ∧ ul (TodoList (fst (session es))) = [render_todo buy_milk].
Proof. cbv zeta. split; vm_compute; reflexivity. Qed.

(** * Remarks on the types *)

(** [handleTabChange] itself checks nothing: given a string that is no tab,
    it stores it.  That [activeTab] is a tab in every session rests on the
    three triggers of the control. *)
Example handleTabChange_unchecked :
  activeTab (handleTabChange "archived" initial) = "archived".
Proof. reflexivity. Qed.

(** Outside the two statuses the conditional of [handleCheckboxChange]
    answers [completed], so it is an involution on the statuses only. *)
Example next_status_outside_statuses :
  next_status "archived" = "completed"
  ∧ next_status (next_status "archived") = "pending".
Proof. split; reflexivity. Qed.

(** * Further properties of the component *)

(** ** The query input *)

Lemma statuses_cases tab :
  (tab = "all" ∧ statuses tab = ["completed"; "pending"])
  ∨ (tab ≠ "all" ∧ statuses tab = [tab]).
Proof.
  destruct (decide (tab = "all")) as [-> | Hne]; [left | right]; split; try done.
  by apply statuses_other.
Qed.

Lemma statuses_inj a b : statuses a = statuses b → a = b.
Proof.
  intros Hab.
  destruct (statuses_cases a) as [[Ea Ha] | [_ Ha]];
    destruct (statuses_cases b) as [[Eb Hb] | [_ Hb]];
    rewrite Ha, Hb in Hab; [congruence | inversion Hab .. | by inversion Hab].
Qed.

(** X1. The input of the list query is never empty and never names a status
    twice; it names statuses only ([pending], [completed]) exactly when the
    tab is one of the three tabs; and two different tabs never share an
    input. *)
Theorem statuses_wellformed :
  (∀ tab, statuses tab ≠ [] ∧ NoDup (statuses tab))
  ∧ (∀ tab, TabValue tab ↔ Forall TodoStatus (statuses tab))
  ∧ (∀ a b, statuses a = statuses b → a = b).
Proof.
  split; [| split].
  - intros tab. destruct (statuses_cases tab) as [[-> ->] | [_ ->]].
    + split; [done |]. apply NoDup_cons. split; [| apply NoDup_singleton].
      by intros ?%list_elem_of_singleton.
    + split; [done | apply NoDup_singleton].
  - intros tab. unfold TabValue, TodoStatus.
    destruct (statuses_cases tab) as [[-> ->] | [Hne ->]].
    + split; [intros _ | by left].
      repeat (apply Forall_cons; split); auto using Forall_nil.
    + rewrite Forall_singleton. split.
      * by intros [? | ?].
      * intros ?. by right.
  - exact statuses_inj.
Qed.

(** ** The delete button *)

(** X2. The delete button of a rendered row asks the remote service to
    delete the todo of that row, by its id, sends nothing else and changes
    nothing in the component: the row stays until the list is fetched
    again. *)
Theorem delete_click_requests_delete st i todo :
  todos st !! i = Some todo →
  step st (button_click i) = (st, [todo_delete (id todo)])
  ∧ ul (TodoList (fst (step st (button_click i)))) !! i = Some (render_todo todo).
Proof.
  intros Hi.
  assert (Hrow : ul (TodoList st) !! i = Some (render_todo todo)).
  { cbn [TodoList ul]. by rewrite list_lookup_fmap, Hi. }
  cbn [step]. rewrite Hrow. by split.
Qed.

Lemma delete_click_requests_delete_witness :
  step (showing [buy_milk; walk_dog]) (button_click 1)
    = (showing [buy_milk; walk_dog], [todo_delete 2])
  ∧ ul (TodoList (fst (step (showing [buy_milk; walk_dog]) (button_click 1)))) !! 1%nat
    = Some (render_todo walk_dog).
Proof.
  apply (delete_click_requests_delete (showing [buy_milk; walk_dog]) 1%nat walk_dog).
  reflexivity.
Defined.

(** ** Class names *)

(** Deciding whether a token is among the words of a class name that is
    written out. *)
Ltac class_token :=
  match goal with
  | |- context [classList ?s] =>
      let l := eval vm_compute in (classList s) in
      change (classList s) with l
  end;
  lazymatch goal with
  | |- _ ∈ _ → _ =>
      let Hin := fresh "Hin" in
      intros Hin;
      repeat (apply elem_of_cons in Hin as [Hin | Hin]; [discriminate Hin |]);
      by apply elem_of_nil in Hin
  | |- _ ∈ _ => repeat first [apply list_elem_of_here | apply list_elem_of_further]
  end.

Lemma li_className_completed todo :
  "bg-gray-50" ∈ classList (li_className (render_todo todo))
  ↔ status todo = "completed".
Proof.
  cbn [render_todo li_className].
  destruct (String.eqb_spec (status todo) "completed") as [Heq | Hne].
  - split; [done | intros _]. class_token.
  - split; [| done]. intros Hin. exfalso. revert Hin. class_token.
Qed.

Lemma label_className_completed todo :
  "text-gray-400" ∈ classList (label_className (li_label (render_todo todo)))
  ↔ status todo = "completed".
Proof.
  cbn [render_todo li_label label_className].
  destruct (String.eqb_spec (status todo) "completed") as [Heq | Hne].
  - split; [done | intros _]. class_token.
  - split; [| done]. intros Hin. exfalso. revert Hin. class_token.
Qed.

(** X3. In every rendered row the darker background ([bg-gray-50] on the
    [<li>]) and the grey text ([text-gray-400] on the label) are present
    exactly when the todo of the row is completed, so they go with the
    checked checkbox; the border class is there in both cases. *)
Theorem row_style_reflects_status st i li :
  ul (TodoList st) !! i = Some li →
  ∃ todo, todos st !! i = Some todo
    ∧ ("bg-gray-50" ∈ classList (li_className li) ↔ status todo = "completed")
    ∧ ("text-gray-400" ∈ classList (label_className (li_label li))
       ↔ status todo = "completed")
    ∧ ("bg-gray-50" ∈ classList (li_className li)
       ↔ checked (li_checkbox li) = true)
    ∧ "border-gray-200" ∈ classList (li_className li).
Proof.
  intros Hi. cbn [TodoList ul] in Hi.
  apply list_lookup_fmap_Some in Hi as (todo & -> & Htodo).
  exists todo. split; [assumption |].
  split; [apply li_className_completed |].
  split; [apply label_className_completed |].
  split.
  - rewrite li_className_completed. cbn [render_todo li_checkbox checked].
    by destruct (String.eqb_spec (status todo) "completed").
  - cbn [render_todo li_className].
    destruct (String.eqb (status todo) "completed"); class_token.
Qed.

Lemma row_style_reflects_status_witness :
  ∃ todo, todos (showing [milk_done; buy_milk]) !! 0%nat = Some todo
    ∧ ("bg-gray-50" ∈ classList (li_className (render_todo milk_done))
       ↔ status todo = "completed")
    ∧ ("text-gray-400" ∈ classList (label_className (li_label (render_todo milk_done)))
       ↔ status todo = "completed")
    ∧ ("bg-gray-50" ∈ classList (li_className (render_todo milk_done))
       ↔ checked (li_checkbox (render_todo milk_done)) = true)
    ∧ "border-gray-200" ∈ classList (li_className (render_todo milk_done)).
Proof.
  apply (row_style_reflects_status (showing [milk_done; buy_milk]) 0%nat
           (render_todo milk_done)).
  reflexivity.
Defined.

(** ** The tabs *)

Lemma trigger_class_active activeTab value :
  "bg-gray-700" ∈ classList (trigger_class activeTab value) ↔ value = activeTab.
Proof.
  unfold trigger_class.
  destruct (String.eqb_spec activeTab value) as [Heq | Hne].
  - split; [done | intros _]. class_token.
  - split; [| by intros ->]. intros Hin. exfalso. revert Hin. class_token.
Qed.

Lemma triggers_cases st tr :
  tr ∈ tabs_list (tabs (TodoList st)) →
  ∃ value children,
    tr = mkTrigger (trigger_class (activeTab st) value) value children
    ∧ (value, children) ∈ [("all", "All"); ("pending", "Pending");
                            ("completed", "Completed")].
Proof.
  cbn [TodoList tabs render_tabs tabs_list].
  rewrite !elem_of_cons, elem_of_nil.
  intros [-> | [-> | [-> | []]]]; eexists _, _; (split; [reflexivity |]);
    rewrite !elem_of_cons; auto.
Qed.

(** X4. The tab control is given [activeTab] as its value, and the trigger
    that carries the filled style ([bg-gray-700]) is the one whose value
    is [activeTab], and no other.  In every session there is such a
    trigger, and only one: the control never shows two tabs as selected,
    and never none. *)
Theorem active_trigger_highlighted :
  (∀ st, tabs_value (tabs (TodoList st)) = activeTab st)
  ∧ (∀ st tr, tr ∈ tabs_list (tabs (TodoList st)) →
       ("bg-gray-700" ∈ classList (trigger_className tr)
        ↔ trigger_value tr = activeTab st))
  ∧ (∀ es,
       let view := TodoList (fst (session es)) in
       ∃ tr, tr ∈ tabs_list (tabs view)
         ∧ "bg-gray-700" ∈ classList (trigger_className tr)
         ∧ ∀ tr', tr' ∈ tabs_list (tabs view) →
             "bg-gray-700" ∈ classList (trigger_className tr') → tr' = tr).
Proof.
  assert (Hiff : ∀ st tr, tr ∈ tabs_list (tabs (TodoList st)) →
            ("bg-gray-700" ∈ classList (trigger_className tr)
             ↔ trigger_value tr = activeTab st)).
  { intros st tr (value & children & -> & _)%triggers_cases.
    cbn [trigger_className trigger_value]. apply trigger_class_active. }
  split; [reflexivity |]. split; [exact Hiff |].
  intros es view. subst view. set (st := fst (session es)).
  pose proof (session_TabValue es) as Htab. fold st in Htab.
  assert (Hex : ∃ tr, tr ∈ tabs_list (tabs (TodoList st))
                      ∧ trigger_value tr = activeTab st).
  { cbn [TodoList tabs render_tabs tabs_list].
    destruct Htab as [Heq | [Heq | Heq]];
      [exists (mkTrigger (trigger_class (activeTab st) "all") "all" "All")
      |exists (mkTrigger (trigger_class (activeTab st) "pending") "pending" "Pending")
      |exists (mkTrigger (trigger_class (activeTab st) "completed") "completed" "Completed")];
      (split; [rewrite !elem_of_cons; auto | by rewrite Heq]). }
  destruct Hex as (tr & Hin & Hval). exists tr.
  split; [assumption |]. split; [by apply (Hiff st tr Hin) |].
  intros tr' Hin' Hhigh'. apply (Hiff st tr' Hin') in Hhigh'.
  apply triggers_cases in Hin as (v & c & -> & Hvc).
  apply triggers_cases in Hin' as (v' & c' & -> & Hvc').
  cbn [trigger_value] in Hval, Hhigh'. subst v v'.
  rewrite !elem_of_cons, elem_of_nil in Hvc, Hvc'.
  destruct Hvc as [Hvc | [Hvc | [Hvc | []]]];
    destruct Hvc' as [Hvc' | [Hvc' | [Hvc' | []]]]; congruence.
Qed.

(** ** Keys and labels *)

Lemma js_String_inj a b : js_String a = js_String b → a = b.
Proof.
  unfold js_String. intros Hab.
  assert (Hparse : ∀ z, NilZero.int_of_string (NilZero.string_of_int (Z.to_int z))
                        = Some (Z.to_int z)).
  { intros z. apply NilZero.isi; destruct z as [| p | p]; cbn; try discriminate.
    - intros [= Hp]. by apply Unsigned.to_uint_nonnil in Hp.
    - intros [= Hp]. by apply Unsigned.to_uint_nonnil in Hp. }
  apply DecimalZ.to_int_inj.
  pose proof (Hparse a) as Ha. rewrite Hab, Hparse in Ha. by inversion Ha.
Qed.

(** X5. The rows are the todos of the answer, in its order, one row each,
    keyed by the id of the todo: the component neither sorts nor drops
    any.  When the ids of the answer are distinct, the keys are distinct,
    and the label of a row names the checkbox of that row and of no other
    row. *)
Theorem rows_keep_order_and_identity st :
  key <$> ul (TodoList st) = id <$> todos st
  ∧ length (ul (TodoList st)) = length (todos st)
  ∧ (NoDup (id <$> todos st) →
       NoDup (key <$> ul (TodoList st))
       ∧ ∀ i j li lj,
           ul (TodoList st) !! i = Some li →
           ul (TodoList st) !! j = Some lj →
           htmlFor (li_label li) = checkbox_id (li_checkbox lj) → i = j).
Proof.
  assert (Hkeys : key <$> ul (TodoList st) = id <$> todos st).
  { cbn [TodoList ul]. rewrite <- list_fmap_compose. reflexivity. }
  split; [exact Hkeys |].
  split; [cbn [TodoList ul]; apply length_fmap |].
  intros Hnodup. split; [by rewrite Hkeys |].
  intros i j li lj Hi Hj Hfor. cbn [TodoList ul] in Hi, Hj.
  apply list_lookup_fmap_Some in Hi as (ti & -> & Hi).
  apply list_lookup_fmap_Some in Hj as (tj & -> & Hj).
  cbn [render_todo li_label htmlFor li_checkbox checkbox_id] in Hfor.
  apply js_String_inj in Hfor.
  apply (NoDup_lookup (id <$> todos st) i j (id ti)); [assumption | |].
  - by rewrite list_lookup_fmap, Hi.
  - by rewrite list_lookup_fmap, Hj, Hfor.
Qed.

Lemma rows_keep_order_and_identity_witness :
  NoDup (id <$> todos (showing [walk_dog; buy_milk]))
  ∧ NoDup (key <$> ul (TodoList (showing [walk_dog; buy_milk])))
  ∧ ∀ i j li lj,
      ul (TodoList (showing [walk_dog; buy_milk])) !! i = Some li →
      ul (TodoList (showing [walk_dog; buy_milk])) !! j = Some lj →
      htmlFor (li_label li) = checkbox_id (li_checkbox lj) → i = j.
Proof.
  assert (Hnodup : NoDup (id <$> todos (showing [walk_dog; buy_milk]))).
  { apply (bool_decide_unpack _). vm_compute. exact I. }
  split; [exact Hnodup |].
  exact (proj2 (proj2 (rows_keep_order_and_identity (showing [walk_dog; buy_milk])))
           Hnodup).
Defined.

(** ** The icons *)

Lemma jsx_props_lookup (object : gmap string PropValue) k :
  jsx_props object !! k = if decide (k ∈ not_svg_props) then None else object !! k.
Proof.
  unfold jsx_props. induction not_svg_props as [| n names IH]; cbn [foldr].
  - rewrite decide_False by apply not_elem_of_nil. reflexivity.
  - rewrite lookup_delete, IH. destruct (decide (n = k)) as [-> | Hne].
    + by rewrite decide_True by apply list_elem_of_here.
    + destruct (decide (k ∈ names)) as [Hin | Hnin].
      * by rewrite decide_True by (by apply list_elem_of_further).
      * rewrite decide_False; [reflexivity |].
        intros [-> | Hin]%elem_of_cons; [by destruct Hne | by destruct Hnin].
Qed.

Lemma jsx_props_dom (object : gmap string PropValue) :
  dom (jsx_props object) = dom object ∖ list_to_set not_svg_props.
Proof.
  apply set_eq. intros k.
  rewrite elem_of_dom, jsx_props_lookup, elem_of_difference, elem_of_dom,
    elem_of_list_to_set.
  case_decide as Hin.
  - split; [by intros [? ?] | by intros [_ ?]].
  - split; [by intros ? | by intros [? _]].
Qed.

(** X6. Both icons give their [<svg>] the same props: what the caller
    passes, under the name it passes it, except [children], [key], [ref],
    [__self] and [__source], which never become props of the [<svg>]; and
    for a name the caller does not pass, the icon's own value, which
    exists for [xmlns], [fill], [viewBox], [strokeWidth] and [stroke]
    only.  The [<path>] is the child whatever the caller passes, and the
    two icons differ in its [d] alone.  As [TodoList] uses them, with a
    [className] and nothing else, the five own props are all in place. *)
Theorem icon_props_spread props :
  (∀ k v, k ∉ not_svg_props → props !! k = Some v →
     svg_props (XMarkIcon_svg props) !! k = Some v)
  ∧ (∀ k, props !! k = None →
       svg_props (XMarkIcon_svg props) !! k = svg_props (XMarkIcon_svg ∅) !! k)
  ∧ (∀ k, k ∈ not_svg_props → svg_props (XMarkIcon_svg props) !! k = None)
  ∧ dom (svg_props (XMarkIcon_svg props))
    = (dom props ∪ svg_own_names) ∖ list_to_set not_svg_props
  ∧ svg_props (CheckIcon_svg props) = svg_props (XMarkIcon_svg props)
  ∧ path_props (XMarkIcon_svg props) = path_props (XMarkIcon_svg ∅)
  ∧ path_props (CheckIcon_svg props) = path_props (CheckIcon_svg ∅)
  ∧ (∀ k, k ≠ "d" →
       path_props (CheckIcon_svg props) !! k = path_props (XMarkIcon_svg props) !! k)
  ∧ (∀ icon k, k ∈ svg_own_names →
       svg_props (render_icon icon) !! k = svg_props (XMarkIcon_svg ∅) !! k)
  ∧ (∀ className,
       svg_props (render_icon (XMarkIcon className)) !! "className" = Some (str className)
       ∧ svg_props (render_icon (CheckIcon className)) !! "className" = Some (str className)).
Proof.
  split; [| split; [| split; [| split; [| split; [| split; [| split; [| split; [| split]]]]]]]].
  - intros k v Hk Hv. cbn [XMarkIcon_svg svg_props].
    rewrite jsx_props_lookup, decide_False by exact Hk.
    by apply lookup_union_Some_l.
  - intros k Hk. cbn [XMarkIcon_svg svg_props].
    rewrite !jsx_props_lookup. case_decide; [reflexivity |].
    rewrite (left_id_L ∅ (∪)). by apply lookup_union_r.
  - intros k Hk. cbn [XMarkIcon_svg svg_props].
    by rewrite jsx_props_lookup, decide_True.
  - cbn [XMarkIcon_svg svg_props]. rewrite jsx_props_dom, dom_union_L. do 2 f_equal.
  - reflexivity.
  - reflexivity.
  - reflexivity.
  - intros k Hk. cbn [XMarkIcon_svg CheckIcon_svg path_props].
    destruct (decide (k = "strokeLinecap")) as [-> | Hcap]; [reflexivity |].
    destruct (decide (k = "strokeLinejoin")) as [-> | Hjoin]; [reflexivity |].
    rewrite !lookup_insert_ne by done. by rewrite !lookup_singleton_ne.
  - intros icon k Hk.
    assert (Hne : "className" ≠ k).
    { intros <-. revert Hk. apply (bool_decide_unpack _). vm_compute. exact I. }
    destruct icon as [c | c]; cbn [render_icon XMarkIcon_svg CheckIcon_svg svg_props];
      rewrite !jsx_props_lookup; (case_decide; [reflexivity |]);
      rewrite (left_id_L ∅ (∪)); apply lookup_union_r;
      by apply lookup_singleton_None.
  - intros className. split; cbn [render_icon XMarkIcon_svg CheckIcon_svg svg_props];
      rewrite jsx_props_lookup, decide_False
        by (apply (bool_decide_unpack _); vm_compute; exact I);
      apply lookup_union_Some_l; apply lookup_singleton_eq.
Qed.

(** A caller that passes [children] and an [undefined] value: the child is
    still the [<path>], and the [undefined] replaces the icon's own
    [fill]. *)
Example icon_children_scenario :
  let props : gmap string PropValue :=
    {[ "children" := str "hello"; "fill" := undefined ]} in
  svg_props (XMarkIcon_svg props) !! "children" = None
  ∧ svg_props (XMarkIcon_svg props) !! "fill" = Some undefined
  ∧ svg_props (XMarkIcon_svg props) !! "stroke" = Some (str "currentColor")
  ∧ path_props (XMarkIcon_svg props) !! "d" = Some (str "M6 18L18 6M6 6l12 12").
Proof. cbv zeta. repeat split; vm_compute; reflexivity. Qed.

(** ** What the component sends *)

Lemma next_status_valid s : TodoStatus (next_status s).
Proof. unfold next_status. destruct (String.eqb s "completed"); [by left | by right]. Qed.

Lemma targets_mono pool pool' r :
  (∀ todo, todo ∈ pool → todo ∈ pool') → targets pool r → targets pool' r.
Proof.
  intros Hsub. destruct r as [k | i s | i]; cbn [targets]; [done | |].
  - intros (todo & Hin & Hid & Hs). exists todo. auto.
  - intros (todo & Hin & Hid). exists todo. auto.
Qed.

Lemma fetched_app es1 es2 : fetched (es1 ++ es2) = fetched es1 ++ fetched es2.
Proof.
  induction es1 as [| e es1 IH]; [reflexivity |].
  destruct e as [i | i | i | k [l |] | ok | ok]; cbn [app fetched]; try exact IH.
  rewrite IH. apply (assoc_L (++)).
Qed.

(** A row on display comes from the cache. *)
Lemma displayed_cached pool st i li :
  cache_within pool st → ul (TodoList st) !! i = Some li →
  ∃ todo, li = render_todo todo ∧ todo ∈ pool.
Proof.
  intros Hpool Hi. cbn [TodoList ul] in Hi.
  apply list_lookup_fmap_Some in Hi as (todo & -> & Htodo).
  exists todo. split; [reflexivity |].
  unfold todos, data in Htodo.
  destruct (queryCache st !! statuses (activeTab st)) as [l |] eqn:Hl;
    cbn [default] in Htodo; [| by rewrite lookup_nil in Htodo].
  eapply Hpool; [exact Hl |]. by eapply list_elem_of_lookup_2.
Qed.

Lemma step_targets pool st e :
  cache_within pool st →
  cache_within (pool ++ fetched [e]) (fst (step st e))
  ∧ ∀ r, r ∈ snd (step st e) → targets pool r.
Proof.
  intros Hpool.
  destruct e as [i | i | i | k [l |] | ok | ok]; cbn [step fetched];
    rewrite ?(right_id_L [] (++)).
  - destruct (tabs_list (tabs (TodoList st)) !! i) as [tr |]; cbn [fst snd];
      (split; [exact Hpool |]).
    + unfold useQuery_fetch. case_decide; [by intros r ?%elem_of_nil |].
      by intros r ->%list_elem_of_singleton.
    + by intros r ?%elem_of_nil.
  - destruct (ul (TodoList st) !! i) as [li |] eqn:Hi; cbn [fst snd];
      (split; [exact Hpool |]); [| by intros r ?%elem_of_nil].
    destruct (displayed_cached pool st i li Hpool Hi) as (todo & -> & Hin).
    intros r ->%list_elem_of_singleton. by exists todo.
  - destruct (ul (TodoList st) !! i) as [li |] eqn:Hi; cbn [fst snd];
      (split; [exact Hpool |]); [| by intros r ?%elem_of_nil].
    destruct (displayed_cached pool st i li Hpool Hi) as (todo & -> & Hin).
    intros r ->%list_elem_of_singleton. by exists todo.
  - cbn [fst snd useQuery_settle]. split; [| by intros r ?%elem_of_nil].
    intros input l' Hl' todo Hin. cbn [queryCache] in Hl'.
    apply elem_of_app.
    destruct (decide (k = input)) as [-> | Hne].
    + rewrite lookup_insert_eq in Hl'. inversion Hl'; subst. by right.
    + rewrite lookup_insert_ne in Hl' by assumption. left. by eapply Hpool.
  - cbn [fst snd useQuery_settle]. split; [exact Hpool | by intros r ?%elem_of_nil].
  - cbn [fst snd]. split; [exact Hpool |].
    destruct ok; cbn [useMutation_settle]; [| by intros r ?%elem_of_nil].
    by intros r ->%list_elem_of_singleton.
  - cbn [fst snd]. split; [exact Hpool |].
    destruct ok; cbn [useMutation_settle]; [| by intros r ?%elem_of_nil].
    by intros r ->%list_elem_of_singleton.
Qed.

Lemma run_targets es : ∀ pool st,
  cache_within pool st →
  cache_within (pool ++ fetched es) (fst (run st es))
  ∧ ∀ r, r ∈ snd (run st es) → targets (pool ++ fetched es) r.
Proof.
  induction es as [| e es IH]; intros pool st Hpool.
  - cbn [run fetched fst snd]. rewrite (right_id_L [] (++)).
    split; [exact Hpool | by intros r ?%elem_of_nil].
  - destruct (step_targets pool st e Hpool) as [Hpool1 Hout1].
    cbn [run]. destruct (step st e) as [st1 out1]. cbn [fst snd] in Hpool1, Hout1.
    destruct (IH _ st1 Hpool1) as [Hpool2 Hout2].
    destruct (run st1 es) as [st2 out2]. cbn [fst snd] in *.
    change (e :: es) with ([e] ++ es). rewrite fetched_app, (assoc_L (++)).
    split; [exact Hpool2 |].
    intros r [Hr | Hr]%elem_of_app; [| by apply Hout2].
    eapply targets_mono; [| by apply Hout1].
    intros todo Hin. rewrite <- (assoc_L (++)). apply elem_of_app. by left.
Qed.

(** X7. The component asks for changes to todos it was sent, and to no
    others: in every session, a status update names the id of a todo of an
    earlier answer of the remote service and asks for the other status of
    the one that todo had, which is [pending] or [completed] whatever the
    service had sent; and a delete names the id of such a todo. *)
Theorem mutations_target_fetched_todos es :
  (∀ todoId s, todoStatus_update todoId s ∈ snd (session es) →
     TodoStatus s
     ∧ ∃ todo, todo ∈ fetched es ∧ id todo = todoId
               ∧ s = next_status (status todo))
  ∧ (∀ todoId, todo_delete todoId ∈ snd (session es) →
       ∃ todo, todo ∈ fetched es ∧ id todo = todoId).
Proof.
  assert (Hall : ∀ r, r ∈ snd (session es) → targets (fetched es) r).
  { unfold session.
    assert (Hinit : cache_within [] (fst mount)).
    { intros input l Hl. cbn in Hl. by rewrite lookup_empty in Hl. }
    destruct (run_targets es [] (fst mount) Hinit) as [_ Hout].
    destruct (run (fst mount) es) as [st out]. cbn [fst snd app] in *.
    intros r [Hr | Hr]%elem_of_app; [| by apply Hout].
    by apply list_elem_of_singleton in Hr as ->. }
  split.
  - intros todoId s Hin. destruct (Hall _ Hin) as (todo & Hpool & Hid & ->).
    split; [apply next_status_valid |]. by exists todo.
  - intros todoId Hin. exact (Hall _ Hin).
Qed.

Lemma mutations_target_fetched_todos_witness :
  todoStatus_update 1 "completed"
    ∈ snd (session [getAll_settled ["completed"; "pending"] (Some [buy_milk]);
                    checkbox_click 0])
  ∧ TodoStatus "completed"
  ∧ ∃ todo, todo ∈ fetched [getAll_settled ["completed"; "pending"] (Some [buy_milk]);
                            checkbox_click 0]
            ∧ id todo = 1 ∧ "completed" = next_status (status todo).
Proof.
  assert (Hsent : todoStatus_update 1 "completed"
            ∈ snd (session [getAll_settled ["completed"; "pending"] (Some [buy_milk]);
                            checkbox_click 0])).
  { vm_compute. apply list_elem_of_further, list_elem_of_here. }
  split; [exact Hsent |].
  exact (proj1 (mutations_target_fetched_todos _) 1 "completed" Hsent).
Defined.

(** ** Repeated clicks *)

Lemma run_mutation_events es : ∀ st,
  Forall (λ e, mutation_event e = true) es → fst (run st es) = st.
Proof.
  induction es as [| e es IH]; intros st Hes; [reflexivity |].
  apply Forall_cons in Hes as [He Hes].
  assert (Hst : fst (step st e) = st).
  { destruct (step_state st e) as
      [Hst | [(i & tr & -> & _) | (k & l & -> & _)]]; [exact Hst | done ..]. }
  cbn [run]. destruct (step st e) as [st1 out1]. cbn [fst] in Hst. subst st1.
  specialize (IH st Hes). destruct (run st es) as [st2 out2]. exact IH.
Qed.

(** X8. What a click on a row sends depends on the list on display alone.
    After any number of clicks on checkboxes and delete buttons, and of
    settled updates and deletes, successful or not, the state is as it
    was, so a further click on the checkbox of a row asks again for the
    same status, and a further click on its delete button for the same
    delete: until the list is fetched again, a second click on a checkbox
    does not toggle back. *)
Theorem clicks_repeat_until_refetch st es i todo :
  Forall (λ e, mutation_event e = true) es →
  todos st !! i = Some todo →
  fst (run st es) = st
  ∧ step (fst (run st es)) (checkbox_click i)
    = (st, [todoStatus_update (id todo) (next_status (status todo))])
  ∧ step (fst (run st es)) (button_click i) = (st, [todo_delete (id todo)])
  ∧ snd (run st [checkbox_click i; checkbox_click i])
    = [todoStatus_update (id todo) (next_status (status todo));
       todoStatus_update (id todo) (next_status (status todo))].
Proof.
  intros Hes Hi.
  assert (Hrow : ul (TodoList st) !! i = Some (render_todo todo)).
  { cbn [TodoList ul]. by rewrite list_lookup_fmap, Hi. }
  rewrite (run_mutation_events es st Hes).
  split; [reflexivity |].
  cbn [run step]. rewrite Hrow. cbn [fst snd]. rewrite Hrow.
  by repeat split.
Qed.

Lemma clicks_repeat_until_refetch_witness :
  fst (run (showing [buy_milk]) [checkbox_click 0; update_settled true]) = showing [buy_milk]
  ∧ step (fst (run (showing [buy_milk]) [checkbox_click 0; update_settled true]))
         (checkbox_click 0)
    = (showing [buy_milk], [todoStatus_update 1 "completed"]).
Proof.
  assert (Hes : Forall (λ e, mutation_event e = true)
                  [checkbox_click 0; update_settled true]).
  { repeat (apply Forall_cons; split); done. }
  destruct (clicks_repeat_until_refetch (showing [buy_milk])
              [checkbox_click 0; update_settled true] 0%nat buy_milk Hes eq_refl)
    as (Hst & Hclick & _).
  split; [exact Hst | exact Hclick].
Defined.

(** ** Selecting a tab *)

(** X9. A click on a rendered trigger makes its value the active tab and
    the value of the control, and that trigger becomes the one with the
    filled style; the answers the query hook holds are not touched.  A
    click on the trigger of the tab that is already active changes nothing
    and sends nothing.  A click on another one asks for the list query of
    the new tab: when a fetch for that input is already in flight the hook
    joins it and nothing is sent, otherwise one list query is sent, for
    the statuses of the new tab, and its fetch is in flight. *)
Theorem trigger_click_selects h i tr :
  tabs_list (tabs (TodoList (hook_state h))) !! i = Some tr →
  let h' := fst (hook_step h (trigger_click i)) in
  let input := statuses (trigger_value tr) in
  activeTab (hook_state h') = trigger_value tr
  ∧ tabs_value (tabs (TodoList (hook_state h'))) = trigger_value tr
  ∧ queryCache (hook_state h') = queryCache (hook_state h)
  ∧ (∃ tr', tabs_list (tabs (TodoList (hook_state h'))) !! i = Some tr'
            ∧ trigger_value tr' = trigger_value tr
            ∧ "bg-gray-700" ∈ classList (trigger_className tr'))
  ∧ (trigger_value tr = activeTab (hook_state h) →
       hook_step h (trigger_click i) = (h, []))
  ∧ (trigger_value tr ≠ activeTab (hook_state h) → input ∈ fetching h →
       snd (hook_step h (trigger_click i)) = [] ∧ fetching h' = fetching h)
  ∧ (trigger_value tr ≠ activeTab (hook_state h) → input ∉ fetching h →
       snd (hook_step h (trigger_click i)) = [todo_getAll input]
       ∧ fetching h' = {[ input ]} ∪ fetching h).
Proof.
  intros Hi h' input.
  set (st := hook_state h) in *.
  set (st' := handleTabChange (trigger_value tr) st).
  assert (Hstep : hook_step h (trigger_click i)
            = hook_asks false (useQuery_fetch st st')
                {| hook_state := st'; fetching := fetching h |}).
  { cbn [hook_step step]. fold st. by rewrite Hi. }
  assert (Hstate : hook_state h' = st').
  { subst h'. rewrite Hstep. apply hook_asks_spec. }
  split; [by rewrite Hstate |]. split; [by rewrite Hstate |].
  split; [by rewrite Hstate |].
  split; [| split; [| split]].
  - rewrite Hstate.
    cbn [TodoList tabs render_tabs tabs_list] in Hi |- *.
    destruct i as [| [| [| i]]]; cbn in Hi; inversion Hi; subst tr;
      cbn [trigger_value]; eexists; (split; [reflexivity |]);
      (split; [reflexivity |]); cbn [trigger_className];
      by apply trigger_class_active.
  - intros Heq. rewrite Hstep. unfold useQuery_fetch.
    assert (Hst' : st' = st).
    { subst st'. unfold handleTabChange, setActiveTab. rewrite Heq. by destruct st. }
    rewrite Hst', decide_True by reflexivity. cbn [hook_asks].
    subst st. by rewrite hook_eta.
  - intros Hne Hin. subst h'. rewrite Hstep. unfold useQuery_fetch.
    rewrite decide_False
      by (cbn [st' handleTabChange setActiveTab activeTab];
          intros Heq; by apply statuses_inj in Heq).
    cbn [hook_asks st' handleTabChange setActiveTab activeTab]. fold input.
    unfold hook_fetch. cbn [fetching]. rewrite decide_True by exact Hin.
    cbn [andb hook_asks app fst snd fetching]. by split.
  - intros Hne Hnin. subst h'. rewrite Hstep. unfold useQuery_fetch.
    rewrite decide_False
      by (cbn [st' handleTabChange setActiveTab activeTab];
          intros Heq; by apply statuses_inj in Heq).
    cbn [hook_asks st' handleTabChange setActiveTab activeTab]. fold input.
    unfold hook_fetch. cbn [fetching]. rewrite decide_False by exact Hnin.
    cbn [hook_asks app fst snd fetching]. by split.
Qed.

Lemma trigger_click_selects_witness :
  activeTab (hook_state (fst (hook_session [trigger_click 1]))) = "pending"
  ∧ snd (hook_step (fst hook_mount) (trigger_click 1)) = [todo_getAll ["pending"]]
  ∧ snd (hook_step (fst (hook_session [trigger_click 1])) (trigger_click 0)) = []
  ∧ hook_step (fst hook_mount) (trigger_click 0) = (fst hook_mount, []).
Proof.
  destruct (trigger_click_selects (fst hook_mount) 1%nat
              (mkTrigger (trigger_class "all" "pending") "pending" "Pending") eq_refl)
    as (Htab & _ & _ & _ & _ & _ & Hsend).
  destruct (trigger_click_selects (fst (hook_session [trigger_click 1])) 0%nat
              (mkTrigger (trigger_class "pending" "all") "all" "All") eq_refl)
    as (_ & _ & _ & _ & _ & Hjoin & _).
  destruct (trigger_click_selects (fst hook_mount) 0%nat
              (mkTrigger (trigger_class "all" "all") "all" "All") eq_refl)
    as (_ & _ & _ & _ & Hsame & _ & _).
  split; [exact Htab |].
  split.
  { apply Hsend; [discriminate |].
    apply (bool_decide_unpack _). vm_compute. exact I. }
  split.
  { apply Hjoin; [discriminate |].
    apply (bool_decide_unpack _). vm_compute. exact I. }
  by apply Hsame.
Defined.

(** ** The tabs of one status *)

(** X10. When the remote service answers each list query with todos of the
    statuses asked for, the [pending] tab shows unchecked rows only, and a
    click on any of its checkboxes asks for [completed]; the [completed]
    tab shows checked rows only, and a click on any of its checkboxes asks
    for [pending]. *)
Theorem status_tabs_show_one_status es :
  Forall honest es →
  let st := fst (session es) in
  (activeTab st = "pending" →
     ∀ i li, ul (TodoList st) !! i = Some li →
       checked (li_checkbox li) = false
       ∧ ∃ todoId, snd (step st (checkbox_click i))
                   = [todoStatus_update todoId "completed"])
  ∧ (activeTab st = "completed" →
     ∀ i li, ul (TodoList st) !! i = Some li →
       checked (li_checkbox li) = true
       ∧ ∃ todoId, snd (step st (checkbox_click i))
                   = [todoStatus_update todoId "pending"]).
Proof.
  intros Hes st.
  pose proof (session_cache_honest es Hes) as Hcache. fold st in Hcache.
  assert (Hrow : ∀ tab, tab ≠ "all" → activeTab st = tab →
            ∀ i li, ul (TodoList st) !! i = Some li →
              ∃ todo, li = render_todo todo ∧ status todo = tab).
  { intros tab Hne Htab i li Hi. cbn [TodoList ul] in Hi.
    apply list_lookup_fmap_Some in Hi as (todo & -> & Htodo).
    exists todo. split; [reflexivity |].
    unfold todos, data in Htodo. rewrite Htab, (statuses_other tab Hne) in Htodo.
    destruct (queryCache st !! [tab]) as [l |] eqn:Hl;
      cbn [default] in Htodo; [| by rewrite lookup_nil in Htodo].
    apply list_elem_of_singleton.
    eapply Hcache; [exact Hl |]. by eapply list_elem_of_lookup_2. }
  assert (Hpending : "pending" ≠ "all") by discriminate.
  assert (Hcompleted : "completed" ≠ "all") by discriminate.
  split; intros Htab i li Hi;
    [destruct (Hrow _ Hpending Htab i li Hi) as (todo & -> & Hstatus)
    |destruct (Hrow _ Hcompleted Htab i li Hi) as (todo & -> & Hstatus)];
    cbn [step]; rewrite Hi;
    cbn [render_todo li_checkbox checked onCheckedChange call snd];
    unfold handleCheckboxChange; rewrite Hstatus;
    (split; [reflexivity | by exists (id todo)]).
Qed.

Lemma status_tabs_show_one_status_witness :
  activeTab (fst (session pending_session)) = "pending"
  ∧ ∀ i li, ul (TodoList (fst (session pending_session))) !! i = Some li →
      checked (li_checkbox li) = false
      ∧ ∃ todoId, snd (step (fst (session pending_session)) (checkbox_click i))
                  = [todoStatus_update todoId "completed"].
Proof.
  split; [reflexivity |].
  apply (proj1 (status_tabs_show_one_status pending_session pending_session_honest)).
  reflexivity.
Defined.
